(** * clawd_migrate: the test-runner shim [scripts/run-tests.js]

    The script resolves two directories from its own location, builds a
    copy of [process.env] with [PYTHONPATH] set, runs
    [python -m unittest discover ...] synchronously with inherited
    standard streams, and exits with the child's status (1 when the
    child reported none).

    The development has three layers:
    - [Path]    Node's POSIX [path.join] (string level, as in lib/path.js);
    - [Node]    the part of the Node runtime the script touches: an object
                heap holding [process.env], [spawnSync], [process.exit];
    - [RunTests] the script itself, statement by statement.
    Environment variable names are case-sensitive map keys, as on POSIX. *)

From Stdlib Require Import ZArith Ascii String Lia Bool.
From stdpp Require Import base option gmap strings.

Local Open Scope Z_scope.

(* ===================================================================== *)
(** ** JavaScript string primitives used by [path]                        *)
(* ===================================================================== *)

(** Strings are sequences of code units.  The path code only ever
    compares units against "/" and "."; every other unit is opaque. *)
Module JSString.

Definition strlen (s : string) : Z := Z.of_nat (String.length s).

(** [s.slice(from, to)] for [0 <= from <= to <= s.length], the only way
    the path code calls it. *)
Definition slice (s : string) (from to : Z) : string :=
  String.substring (Z.to_nat from) (Z.to_nat (to - from)) s.

(** [s.charCodeAt(i) === c] *)
Definition charIs (s : string) (i : Z) (c : ascii) : bool :=
  if i <? 0 then false
  else match String.get (Z.to_nat i) s with
       | Some a => Ascii.eqb a c
       | None => false
       end.

(** [s.lastIndexOf(c)], with -1 for "not found". *)
Fixpoint lastIndexOf_from (c : ascii) (s : string) (i found : Z) : Z :=
  match s with
  | EmptyString => found
  | String a s' =>
      lastIndexOf_from c s' (i + 1) (if Ascii.eqb a c then i else found)
  end.

Definition lastIndexOf (s : string) (c : ascii) : Z :=
  lastIndexOf_from c s 0 (-1).

End JSString.

(* ===================================================================== *)
(** ** [path.posix]                                                       *)
(* ===================================================================== *)

Module Path.
Import JSString.

Definition CHAR_DOT : ascii := "."%char.
Definition CHAR_FORWARD_SLASH : ascii := "/"%char.

Definition isPosixPathSeparator (code : ascii) : bool :=
  Ascii.eqb code CHAR_FORWARD_SLASH.

(** The local variables of [normalizeString] that live across loop
    iterations. *)
Record NormState := mkNorm {
  res : string;
  lastSegmentLength : Z;
  lastSlash : Z;
  dots : Z
}.

Definition norm_init : NormState :=
  {| res := ""; lastSegmentLength := 0; lastSlash := -1; dots := 0 |}.

(** Both ways out of the [dots === 2] case that do not pop a segment:
    append ".." when the path is relative, do nothing otherwise. *)
Definition above_root (allowAboveRoot : bool) (i : Z) (st : NormState)
  : NormState :=
  if allowAboveRoot then
    {| res := if 0 <? strlen (res st) then res st +:+ "/.." else "..";
       lastSegmentLength := 2; lastSlash := i; dots := 0 |}
  else
    {| res := res st; lastSegmentLength := lastSegmentLength st;
       lastSlash := i; dots := 0 |}.

(** Loop body when the current code unit is a separator (or the
    virtual one after the last unit). *)
Definition at_separator
    (path : string) (allowAboveRoot : bool) (i : Z) (st : NormState)
  : NormState :=
  if (lastSlash st =? i - 1) || (dots st =? 1) then
    {| res := res st; lastSegmentLength := lastSegmentLength st;
       lastSlash := i; dots := 0 |}
  else if dots st =? 2 then
    if (strlen (res st) <? 2)
       || negb (lastSegmentLength st =? 2)
       || negb (charIs (res st) (strlen (res st) - 1) CHAR_DOT)
       || negb (charIs (res st) (strlen (res st) - 2) CHAR_DOT)
    then
      if 2 <? strlen (res st) then
        let lastSlashIndex := lastIndexOf (res st) CHAR_FORWARD_SLASH in
        if lastSlashIndex =? -1 then
          {| res := ""; lastSegmentLength := 0; lastSlash := i; dots := 0 |}
        else
          let res' := slice (res st) 0 lastSlashIndex in
          {| res := res';
             lastSegmentLength :=
               strlen res' - 1 - lastIndexOf res' CHAR_FORWARD_SLASH;
             lastSlash := i; dots := 0 |}
      else if negb (strlen (res st) =? 0) then
        {| res := ""; lastSegmentLength := 0; lastSlash := i; dots := 0 |}
      else above_root allowAboveRoot i st
    else above_root allowAboveRoot i st
  else
    {| res := if 0 <? strlen (res st)
              then res st +:+ "/" +:+ slice path (lastSlash st + 1) i
              else slice path (lastSlash st + 1) i;
       lastSegmentLength := i - lastSlash st - 1;
       lastSlash := i; dots := 0 |}.

(** Loop body for any other code unit. *)
Definition at_char (code : ascii) (st : NormState) : NormState :=
  if Ascii.eqb code CHAR_DOT && negb (dots st =? -1) then
    {| res := res st; lastSegmentLength := lastSegmentLength st;
       lastSlash := lastSlash st; dots := dots st + 1 |}
  else
    {| res := res st; lastSegmentLength := lastSegmentLength st;
       lastSlash := lastSlash st; dots := -1 |}.

(** [for (let i = 0; i <= path.length; ++i)]: [rest] is the part of
    [path] from index [i] on, [code] the unit read by the previous
    iteration (0 before the first). *)
Fixpoint norm_loop
    (path : string) (allowAboveRoot : bool)
    (rest : string) (i : Z) (code : ascii) (st : NormState) : string :=
  match rest with
  | String c rest' =>
      norm_loop path allowAboveRoot rest' (i + 1) c
        (if isPosixPathSeparator c
         then at_separator path allowAboveRoot i st
         else at_char c st)
  | EmptyString =>
      if isPosixPathSeparator code then res st
      else res (at_separator path allowAboveRoot i st)
  end.

Definition normalizeString (path : string) (allowAboveRoot : bool) : string :=
  norm_loop path allowAboveRoot path 0 Ascii.zero norm_init.

(** [posix.normalize] *)
Definition normalize (path : string) : string :=
  if strlen path =? 0 then "."
  else
    let isAbsolute := charIs path 0 CHAR_FORWARD_SLASH in
    let trailingSeparator :=
      charIs path (strlen path - 1) CHAR_FORWARD_SLASH in
    let path' := normalizeString path (negb isAbsolute) in
    if strlen path' =? 0 then
      if isAbsolute then "/"
      else if trailingSeparator then "./" else "."
    else
      let path'' := if trailingSeparator then path' +:+ "/" else path' in
      if isAbsolute then "/" +:+ path'' else path''.

(** The accumulation loop of [posix.join]: empty arguments are skipped,
    the others are glued with "/". *)
Fixpoint join_args (joined : option string) (args : list string)
  : option string :=
  match args with
  | [] => joined
  | arg :: args' =>
      join_args
        (if 0 <? strlen arg then
           match joined with
           | None => Some arg
           | Some j => Some (j +:+ "/" +:+ arg)
           end
         else joined)
        args'
  end.

(** [posix.join(...args)] *)
Definition join (args : list string) : string :=
  match join_args None args with
  | None => "."
  | Some joined => normalize joined
  end.

End Path.


(* ===================================================================== *)
(** ** Absolute paths as lists of segments                                *)
(* ===================================================================== *)

(** Vocabulary for saying where a directory lies: an absolute, normalized
    POSIX path (which is what Node gives a module as [__dirname]) is "/"
    followed by its segments separated by "/".  The parent directory of
    such a path is the path of all its segments but the last. *)
Module AbsPath.

Fixpoint no_separator (s : string) : bool :=
  match s with
  | EmptyString => true
  | String c s' => negb (Path.isPosixPathSeparator c) && no_separator s'
  end.

(** A directory name: not empty, no separator in it, neither "." nor
    "..". *)
Definition is_segment (s : string) : bool :=
  no_separator s
  && negb (String.eqb s "") && negb (String.eqb s ".")
  && negb (String.eqb s "..").

Fixpoint join_segments (segs : list string) : string :=
  match segs with
  | [] => ""
  | [s] => s
  | s :: segs' => s +:+ "/" +:+ join_segments segs'
  end.

Definition absolute (segs : list string) : string :=
  "/" +:+ join_segments segs.

(** [n] levels above the directory with segments [segs]. *)
Fixpoint levels_up (n : nat) (segs : list string) : list string :=
  match n with
  | O => segs
  | S n' => removelast (levels_up n' segs)
  end.

End AbsPath.

(** [require("path")] is [path.posix] or [path.win32] depending on the
    platform; the script only uses [join]. *)
Class PathModule := { path_join : list string -> string }.

#[global] Instance posix : PathModule := {| path_join := Path.join |}.

(* ===================================================================== *)
(** ** The Node runtime seen by the script                                *)
(* ===================================================================== *)

Module Node.

(** Object references.  The heap holds the objects that carry an
    environment: [process.env] and the object literal built from it, both
    with string keys and string values.  The argument array, the options
    object and the object returned by [spawnSync] are not heap objects
    here; they are passed as values. *)
Definition loc := positive.
Abbreviation Obj := (gmap string string).

Inductive Stdio := pipe | inherit | ignore.

(** The options object literal [{ cwd, env, stdio }]; [env] is a
    reference, as in JavaScript. *)
Record SpawnOptions := {
  cwd : string;
  env : loc;
  stdio : Stdio
}.

(** What the operating system is asked to run. *)
Record SpawnRequest := {
  file : string;
  args : list string;
  workdir : string;
  envPairs : Obj;
  streams : Stdio
}.

(** How a child can end. *)
Inductive ChildOutcome :=
| ChildExited (code : Z)
| ChildKilled (sig : string)
| ChildNotLaunched (errno : string).

(** The fields of the object returned by [spawnSync] that tell how the
    child ended. *)
Record SpawnSyncReturns := {
  status : option Z;
  signal : option string;
  error : option string
}.

Definition returns_of (o : ChildOutcome) : SpawnSyncReturns :=
  match o with
  | ChildExited n => {| status := Some n; signal := None; error := None |}
  | ChildKilled s => {| status := None; signal := Some s; error := None |}
  | ChildNotLaunched e =>
      {| status := None; signal := None; error := Some e |}
  end.

(** The world outside the process: it decides how a spawned child ends. *)
Definition OS := SpawnRequest -> ChildOutcome.

Record Process := {
  heap : gmap loc Obj;
  process_env : loc;
  process_argv : list string;
  __dirname : string;
  spawned : list (SpawnRequest * ChildOutcome)
}.

(** Process start: [process.env] is a fresh object holding the
    environment the process was started with. *)
Definition boot (dir : string) (argv : list string) (environ : Obj)
  : Process :=
  {| heap := {[ 1%positive := environ ]};
     process_env := 1%positive;
     process_argv := argv;
     __dirname := dir;
     spawned := [] |}.

(** Own enumerable properties of the object at [l]; nothing for a
    reference that holds no object, like spreading [undefined]. *)
Definition props (h : gmap loc Obj) (l : loc) : Obj :=
  default ∅ (h !! l).

(** The environment the process currently has. *)
Definition ambient (p : Process) : Obj := props (heap p) (process_env p).

(** Statements either complete normally or end the process. *)
Inductive Completion (A : Type) :=
| Normal (a : A) (p : Process)
| Exit (code : Z) (p : Process).
Arguments Normal {A} a p.
Arguments Exit {A} code p.

Definition JS (A : Type) : Type := Process -> Completion A.

Definition ret {A} (a : A) : JS A := fun p => Normal a p.

Definition bind {A B} (m : JS A) (k : A -> JS B) : JS B :=
  fun p =>
    match m p with
    | Normal a p' => k a p'
    | Exit c p' => Exit c p'
    end.

#[global] Instance JS_ret : MRet JS := @ret.
#[global] Instance JS_bind : MBind JS := fun A B k m => bind m k.

(** Reading the module-level variable [__dirname]. *)
Definition get_dirname : JS string := fun p => Normal (__dirname p) p.

(** Evaluating [process.env] yields the reference, not a copy. *)
Definition get_process_env : JS loc := fun p => Normal (process_env p) p.

(** [{ ...src, [key]: value }]: a new object gets the properties of
    [src], then [key] is defined on the new object. *)
Definition object_spread_set (src : loc) (key value : string) : JS loc :=
  fun p =>
    let l := fresh (dom (heap p)) in
    Normal l
      {| heap := <[ l := <[ key := value ]> (props (heap p) src) ]> (heap p);
         process_env := process_env p;
         process_argv := process_argv p;
         __dirname := __dirname p;
         spawned := spawned p |}.

(** [obj[key] = value]: the object at [obj] is changed in place, so the
    change shows through every reference to it.  The script has no such
    statement; it is here for comparison with the spread. *)
Definition object_set (obj : loc) (key value : string) : JS unit :=
  fun p =>
    Normal tt
      {| heap := <[ obj := <[ key := value ]> (props (heap p) obj) ]> (heap p);
         process_env := process_env p;
         process_argv := process_argv p;
         __dirname := __dirname p;
         spawned := spawned p |}.

(** [spawnSync(file, args, options)]: the environment is read from the
    object [options.env] refers to at the time of the call; the call
    returns when the child has ended. *)
Definition spawnSync (os : OS)
    (file : string) (args : list string) (options : SpawnOptions)
  : JS SpawnSyncReturns :=
  fun p =>
    let rq := {| file := file; args := args; workdir := cwd options;
                 envPairs := props (heap p) (env options);
                 streams := stdio options |} in
    let out := os rq in
    Normal (returns_of out)
      {| heap := heap p;
         process_env := process_env p;
         process_argv := process_argv p;
         __dirname := __dirname p;
         spawned := spawned p ++ [(rq, out)] |}.

(** [process.exit(code)]: the process ends there, with [code] as its
    exit status. *)
Definition process_exit {A} (code : Z) : JS A := fun p => Exit code p.

(** A finished run: the exit status and the process as it was left. *)
Record Outcome := {
  exit_status : Z;
  final : Process
}.

(** Running a script to the end; a script that falls off its last
    statement exits with 0. *)
Definition run_script (script : JS unit) (p : Process) : Outcome :=
  match script p with
  | Exit c p' => {| exit_status := c; final := p' |}
  | Normal _ p' => {| exit_status := 0; final := p' |}
  end.

End Node.

(* ===================================================================== *)
(** ** scripts/run-tests.js                                               *)
(* ===================================================================== *)

Module RunTests.
Import Node.

Section Script.
Context `{PathModule}.
Variable os : OS.

(** [const root = path.join(__dirname, "..");] *)
Definition root (dirname : string) : string :=
  path_join [dirname; ".."].

(** [const parent = path.join(root, "..");] *)
Definition parent (dirname : string) : string :=
  path_join [root dirname; ".."].

Definition main : JS unit :=
  dirname ← get_dirname;
  let root := root dirname in
  let parent := parent dirname in
  penv ← get_process_env;
  env ← object_spread_set penv "PYTHONPATH" parent;
  r ← spawnSync os
    "python"
    ["-m"; "unittest"; "discover"; "-s"; "tests"; "-p"; "test_*.py"; "-v"]
    {| cwd := root; env := env; stdio := inherit |};
  process_exit (match status r with Some s => s | None => 1 end).

Definition run (p : Process) : Outcome := run_script main p.

End Script.

End RunTests.


(* ===================================================================== *)
(** ** Auxiliary functions for reasoning about [normalizeString]          *)
(* ===================================================================== *)

Module PathAux.
Import JSString Path.

Definition with_dots (st : NormState) (d : Z) : NormState :=
  {| res := res st; lastSegmentLength := lastSegmentLength st;
     lastSlash := lastSlash st; dots := d |}.

(** What one non-separator code unit does to [dots]. *)
Definition next_dots (c : ascii) (d : Z) : Z :=
  if Ascii.eqb c CHAR_DOT && negb (d =? -1) then d + 1 else -1.

(** [dots] after a run of non-separator code units. *)
Fixpoint scan_dots (d : Z) (s : string) : Z :=
  match s with
  | EmptyString => d
  | String c s' => scan_dots (next_dots c d) s'
  end.

(** The variable [code] after reading [s]. *)
Fixpoint last_code (code : ascii) (s : string) : ascii :=
  match s with
  | EmptyString => code
  | String c s' => last_code c s'
  end.

(** [res] after a plain segment has been appended. *)
Definition extend (r s : string) : string :=
  if 0 <? strlen r then r +:+ "/" +:+ s else s.

(** Segments each followed by a separator, then [tail]. *)
Fixpoint chain (segs : list string) (tail : string) : string :=
  match segs with
  | [] => tail
  | s :: segs' => s +:+ "/" +:+ chain segs' tail
  end.

End PathAux.

(* ===================================================================== *)
(** ** Sample inputs                                                      *)
(* ===================================================================== *)

Module Examples.
Import Node.

(** The package checked out at /home/u/clawd_migrate. *)
Definition sample_segments : list string :=
  ["home"; "u"; "clawd_migrate"; "scripts"].

Definition sample_dir : string := "/home/u/clawd_migrate/scripts".

Definition sample_argv : list string :=
  ["/usr/bin/node"; "/home/u/clawd_migrate/scripts/run-tests.js"].

(** An environment in which [PYTHONPATH] is already set. *)
Definition sample_environ : Obj :=
  {[ "PATH" := "/usr/bin"; "PYTHONPATH" := "/opt/lib" ]}.

(** A process freshly started for the script. *)
Definition sample_process : Process :=
  boot sample_dir sample_argv sample_environ.

(** A world in which the child exits with status [n]. *)
Definition os_exits (n : Z) : OS := fun _ => ChildExited n.

(** A world without a [python] executable. *)
Definition os_no_python : OS := fun _ => ChildNotLaunched "ENOENT".

(** A variant of the script that does not copy:
    [const env = process.env; env.PYTHONPATH = parent;] *)
Definition aliasing_variant (os : OS) : JS unit :=
  dirname ← get_dirname;
  env ← get_process_env;
  _ ← object_set env "PYTHONPATH" (RunTests.parent dirname);
  r ← spawnSync os
    "python"
    ["-m"; "unittest"; "discover"; "-s"; "tests"; "-p"; "test_*.py"; "-v"]
    {| cwd := RunTests.root dirname; env := env; stdio := inherit |};
  process_exit (match status r with Some s => s | None => 1 end).

(** What the script asks for when started from [sample_dir] with
    [sample_environ]. *)
Definition sample_request : SpawnRequest :=
  {| file := "python";
     args := ["-m"; "unittest"; "discover"; "-s"; "tests"; "-p";
              "test_*.py"; "-v"];
     workdir := "/home/u/clawd_migrate";
     envPairs := {[ "PATH" := "/usr/bin"; "PYTHONPATH" := "/home/u" ]};
     streams := inherit |}.

End Examples.

(* ===================================================================== *)
(** * Facts about the string primitives                                   *)
(* ===================================================================== *)

Module JSStringFacts.
Import JSString.
#[local] Arguments String.append !_ _ / : simpl nomatch.

Lemma strlen_nonneg s : 0 <= strlen s.
Proof. unfold strlen. lia. Qed.

Lemma strlen_cons c s : strlen (String c s) = 1 + strlen s.
Proof. unfold strlen. cbn [String.length]. lia. Qed.

Lemma strlen_app a b : strlen (a +:+ b) = strlen a + strlen b.
Proof.
  induction a as [|c a IH]; simpl String.append.
  - change (strlen "") with 0. lia.
  - rewrite !strlen_cons, IH. lia.
Qed.

Lemma strlen_zero s : strlen s = 0 -> s = "".
Proof.
  destruct s; [reflexivity|]. rewrite strlen_cons.
  pose proof (strlen_nonneg s). lia.
Qed.

Lemma app_assoc a b c : (a +:+ b) +:+ c = a +:+ (b +:+ c).
Proof. induction a as [|x a IH]; cbn; [reflexivity | by rewrite IH]. Qed.

Lemma app_empty_r a : a +:+ "" = a.
Proof. induction a as [|x a IH]; cbn; [reflexivity | by rewrite IH]. Qed.

Lemma substring_prefix b c :
  String.substring 0 (String.length b) (b +:+ c) = b.
Proof.
  induction b as [|x b IH]; cbn.
  - destruct c; reflexivity.
  - by rewrite IH.
Qed.

Lemma substring_skip a m s :
  String.substring (String.length a) m (a +:+ s) = String.substring 0 m s.
Proof. induction a as [|x a IH]; cbn; [reflexivity | exact IH]. Qed.

(** Slicing out the middle of a three-part string. *)
Lemma slice_middle a b c :
  slice (a +:+ b +:+ c) (strlen a) (strlen a + strlen b) = b.
Proof.
  unfold slice, strlen.
  replace (Z.to_nat (Z.of_nat (String.length a))) with (String.length a)
    by lia.
  replace (Z.to_nat _) with (String.length b) by lia.
  rewrite substring_skip. apply substring_prefix.
Qed.

Lemma slice_prefix b c : slice (b +:+ c) 0 (strlen b) = b.
Proof.
  pose proof (slice_middle "" b c) as Hm. cbn [String.append] in Hm.
  exact Hm.
Qed.

Lemma lastIndexOf_from_app ch a b i f :
  lastIndexOf_from ch (a +:+ b) i f
  = lastIndexOf_from ch b (i + strlen a) (lastIndexOf_from ch a i f).
Proof.
  revert i f. induction a as [|x a IH]; intros i f; cbn.
  - f_equal. unfold strlen; cbn; lia.
  - rewrite IH, strlen_cons. f_equal. lia.
Qed.

Lemma get_app_r a b n :
  String.get (String.length a + n) (a +:+ b) = String.get n b.
Proof. induction a as [|x a IH]; cbn; [reflexivity | exact IH]. Qed.

(** Looking at a code unit in the suffix of a concatenation. *)
Lemma charIs_app_r a b i c :
  0 <= i -> charIs (a +:+ b) (strlen a + i) c = charIs b i c.
Proof.
  intros Hi. unfold charIs.
  pose proof (strlen_nonneg a).
  destruct (Z.ltb_spec (strlen a + i) 0); [lia|].
  destruct (Z.ltb_spec i 0); [lia|].
  replace (Z.to_nat (strlen a + i)) with (String.length a + Z.to_nat i)%nat
    by (unfold strlen; lia).
  by rewrite get_app_r.
Qed.

End JSStringFacts.

(* ===================================================================== *)
(** * Facts about [path.posix.join]                                       *)
(* ===================================================================== *)

Module PathFacts.
Import JSString Path AbsPath PathAux JSStringFacts.
#[local] Arguments String.append !_ _ / : simpl nomatch.

(** The examples of the Node documentation, and some corner cases. *)
Example join_documented :
  Path.join ["/foo"; "bar"; "baz/asdf"; "quux"; ".."] = "/foo/bar/baz/asdf".
Proof. reflexivity. Qed.

Example normalize_documented :
  Path.normalize "/foo/bar//baz/asdf/quux/.." = "/foo/bar/baz/asdf".
Proof. reflexivity. Qed.

Example normalize_corner_cases :
  Path.normalize "" = "."
  /\ Path.normalize "./a//b/" = "a/b/"
  /\ Path.normalize "a/../.." = ".."
  /\ Path.normalize "/../a" = "/a"
  /\ Path.normalize "../../a" = "../../a"
  /\ Path.join [""; ""] = "."
  /\ Path.join ["/"; ".."] = "/".
Proof. repeat split; reflexivity. Qed.

Lemma at_char_with_dots c st :
  at_char c st = with_dots st (next_dots c (dots st)).
Proof.
  unfold at_char, with_dots, next_dots.
  by destruct (Ascii.eqb c CHAR_DOT && negb (dots st =? -1)).
Qed.

Lemma with_dots_same st : with_dots st (dots st) = st.
Proof. by destruct st. Qed.

Lemma with_dots_twice st d d' :
  with_dots (with_dots st d) d' = with_dots st d'.
Proof. reflexivity. Qed.

(** Reading a run of non-separator code units only moves [i], [code]
    and [dots]. *)
Lemma scan_segment path allow s :
  no_separator s = true ->
  forall rest i code st,
    norm_loop path allow (s +:+ rest) i code st
    = norm_loop path allow rest (i + strlen s) (last_code code s)
        (with_dots st (scan_dots (dots st) s)).
Proof.
  induction s as [|c s IH]; intros Hs rest i code st.
  - simpl. change (strlen "") with 0.
    by rewrite Z.add_0_r, with_dots_same.
  - simpl in Hs. apply andb_true_iff in Hs as [Hc Hs].
    apply negb_true_iff in Hc.
    simpl. rewrite Hc, at_char_with_dots, (IH Hs).
    rewrite strlen_cons, with_dots_twice. simpl.
    f_equal. lia.
Qed.

Lemma scan_dots_range s : forall d,
  0 <= d -> scan_dots d s = -1 \/ scan_dots d s = d + strlen s.
Proof.
  induction s as [|c s IH]; intros d Hd; simpl.
  - right. change (strlen "") with 0. lia.
  - unfold next_dots.
    destruct (Ascii.eqb c CHAR_DOT && negb (d =? -1)).
    + destruct (IH (d + 1)) as [->| ->]; [lia|by left|].
      right. rewrite strlen_cons. lia.
    + left. clear. induction s as [|c' s IH']; [reflexivity|].
      simpl. unfold next_dots at 1.
      by rewrite andb_false_r.
Qed.

Lemma is_segment_inv s :
  is_segment s = true ->
  no_separator s = true /\ s <> "" /\ s <> "." /\ s <> "..".
Proof.
  unfold is_segment. rewrite !andb_true_iff, !negb_true_iff.
  rewrite !String.eqb_neq. tauto.
Qed.

Lemma segment_strlen s : is_segment s = true -> 0 < strlen s.
Proof.
  intros (_ & Hne & _)%is_segment_inv.
  destruct s; [done|]. rewrite strlen_cons.
  pose proof (strlen_nonneg s). lia.
Qed.

(** After a directory name, [dots] is neither 1 nor 2. *)
Lemma scan_dots_segment s :
  is_segment s = true -> scan_dots 0 s <> 1 /\ scan_dots 0 s <> 2.
Proof.
  intros (_ & H0 & H1 & H2)%is_segment_inv.
  destruct s as [|a [|b [|c s]]]; [done| | |].
  - simpl. unfold next_dots. simpl.
    destruct (Ascii.eqb_spec a CHAR_DOT) as [->|]; [done|]. simpl. lia.
  - simpl. unfold next_dots.
    destruct (Ascii.eqb_spec a CHAR_DOT) as [->|]; simpl.
    + destruct (Ascii.eqb_spec b CHAR_DOT) as [->|]; [done|]. simpl. lia.
    + rewrite andb_false_r. lia.
  - destruct (scan_dots_range (String a (String b (String c s))) 0)
      as [->| ->]; [lia|lia|].
    rewrite !strlen_cons. pose proof (strlen_nonneg s). lia.
Qed.

(** The separator after a directory name appends the name to [res]. *)
Lemma separator_after_segment allow pre s post st :
  is_segment s = true ->
  lastSlash st = strlen pre - 1 ->
  at_separator (pre +:+ s +:+ post) allow (strlen pre + strlen s)
    (with_dots st (scan_dots 0 s))
  = {| res := extend (res st) s; lastSegmentLength := strlen s;
       lastSlash := strlen pre + strlen s; dots := 0 |}.
Proof.
  intros Hs Hls.
  pose proof (segment_strlen s Hs) as Hlen.
  destruct (scan_dots_segment s Hs) as [H1 H2].
  unfold at_separator, with_dots; simpl.
  rewrite Hls.
  destruct (Z.eqb_spec (strlen pre - 1) (strlen pre + strlen s - 1)); [lia|].
  destruct (Z.eqb_spec (scan_dots 0 s) 1); [lia|].
  destruct (Z.eqb_spec (scan_dots 0 s) 2); [lia|].
  simpl.
  replace (strlen pre - 1 + 1) with (strlen pre) by lia.
  rewrite slice_middle. unfold extend. f_equal. lia.
Qed.

(** One directory name and its separator. *)
Lemma chain_step allow pre s rest code st :
  is_segment s = true ->
  lastSlash st = strlen pre - 1 ->
  dots st = 0 ->
  norm_loop (pre +:+ s +:+ "/" +:+ rest) allow (s +:+ "/" +:+ rest)
    (strlen pre) code st
  = norm_loop (pre +:+ s +:+ "/" +:+ rest) allow rest
      (strlen (pre +:+ s +:+ "/")) CHAR_FORWARD_SLASH
      {| res := extend (res st) s; lastSegmentLength := strlen s;
         lastSlash := strlen (pre +:+ s +:+ "/") - 1; dots := 0 |}.
Proof.
  intros Hs Hls Hd.
  destruct (is_segment_inv s Hs) as (Hns & _).
  rewrite (scan_segment _ _ s Hns), Hd. simpl.
  rewrite (separator_after_segment allow pre s _ st Hs Hls).
  rewrite !strlen_app. change (strlen "/") with 1.
  f_equal; [lia|]. f_equal. lia.
Qed.

(** A sequence of directory names, each followed by a separator. *)
Lemma chain_all allow tail segs :
  Forall (fun s => is_segment s = true) segs ->
  forall pre code st,
    lastSlash st = strlen pre - 1 ->
    dots st = 0 ->
    exists pre' code' st',
      pre +:+ chain segs tail = pre' +:+ tail
      /\ norm_loop (pre +:+ chain segs tail) allow (chain segs tail)
           (strlen pre) code st
         = norm_loop (pre' +:+ tail) allow tail (strlen pre') code' st'
      /\ lastSlash st' = strlen pre' - 1
      /\ dots st' = 0
      /\ res st' = fold_left extend segs (res st).
Proof.
  induction 1 as [|s segs Hs _ IH]; intros pre code st Hls Hd.
  - exists pre, code, st. by simpl.
  - change (chain (s :: segs) tail) with (s +:+ "/" +:+ chain segs tail).
    rewrite (chain_step allow pre s _ code st Hs Hls Hd).
    set (st1 := {| res := extend (res st) s |}).
    destruct (IH (pre +:+ s +:+ "/") CHAR_FORWARD_SLASH st1)
      as (pre' & code' & st' & Hpath & Hloop & Hls' & Hd' & Hres);
      [reflexivity|reflexivity|].
    rewrite !app_assoc in Hpath, Hloop.
    exists pre', code', st'.
    split; [exact Hpath|]. split; [exact Hloop|].
    by rewrite Hres.
Qed.

Lemma lastIndexOf_from_absent s :
  no_separator s = true ->
  forall i f, lastIndexOf_from CHAR_FORWARD_SLASH s i f = f.
Proof.
  induction s as [|c s IH]; intros Hs i f; [reflexivity|].
  simpl in Hs. apply andb_true_iff in Hs as [Hc Hs].
  apply negb_true_iff in Hc. unfold isPosixPathSeparator in Hc.
  simpl. by rewrite Hc, IH.
Qed.

Lemma lastIndexOf_joined r0 s :
  no_separator s = true ->
  lastIndexOf (r0 +:+ "/" +:+ s) CHAR_FORWARD_SLASH = strlen r0.
Proof.
  intros Hs. unfold lastIndexOf. rewrite lastIndexOf_from_app. simpl.
  by rewrite lastIndexOf_from_absent.
Qed.

(** [res] never ends in ".." right after a directory name was
    appended, so the guard of the pop branch holds. *)
Lemma not_dotdot_end x last :
  is_segment last = true ->
  (strlen (x +:+ last) <? 2)
  || negb (strlen last =? 2)
  || negb (charIs (x +:+ last) (strlen (x +:+ last) - 1) CHAR_DOT)
  || negb (charIs (x +:+ last) (strlen (x +:+ last) - 2) CHAR_DOT)
  = true.
Proof.
  intros Hs.
  destruct (Z.eqb_spec (strlen last) 2) as [Hlen|_];
    [|by rewrite orb_true_r].
  destruct last as [|a [|b [|c l]]]; rewrite ?strlen_cons in Hlen;
    try (change (strlen "") with 0 in Hlen; lia);
    try (pose proof (strlen_nonneg l); lia).
  rewrite strlen_app, !strlen_cons. change (strlen "") with 0.
  replace (strlen x + (1 + (1 + 0)) - 1) with (strlen x + 1) by lia.
  replace (strlen x + (1 + (1 + 0)) - 2) with (strlen x + 0) by lia.
  rewrite !charIs_app_r by lia.
  unfold charIs. simpl.
  destruct (Ascii.eqb_spec b CHAR_DOT) as [->|]; [|by rewrite orb_true_r].
  destruct (Ascii.eqb_spec a CHAR_DOT) as [->|]; [|by rewrite orb_true_r].
  discriminate Hs.
Qed.

Lemma extend_split r0 s :
  (r0 = "" /\ extend r0 s = s)
  \/ (0 < strlen r0 /\ extend r0 s = r0 +:+ "/" +:+ s).
Proof.
  unfold extend. destruct (Z.ltb_spec 0 (strlen r0)) as [Hlt|Hge].
  - by right.
  - left. split; [|done]. apply strlen_zero.
    pose proof (strlen_nonneg r0). lia.
Qed.

(** The ".." after a directory name removes that name from [res]. *)
Lemma pop_segment path k r0 last ls :
  is_segment last = true ->
  ls <> k - 1 ->
  res (at_separator path false k
         {| res := extend r0 last; lastSegmentLength := strlen last;
            lastSlash := ls; dots := 2 |})
  = r0.
Proof.
  intros Hs Hls.
  destruct (is_segment_inv last Hs) as (Hns & _).
  pose proof (segment_strlen last Hs) as Hlen.
  unfold at_separator; simpl.
  destruct (Z.eqb_spec ls (k - 1)); [lia|]. simpl.
  destruct (extend_split r0 last) as [[-> ->]|[Hr0 ->]].
  - pose proof (not_dotdot_end "" last Hs) as Hguard.
    simpl in Hguard. rewrite Hguard.
    destruct (Z.ltb_spec 2 (strlen last)).
    + unfold lastIndexOf. by rewrite lastIndexOf_from_absent.
    + destruct (Z.eqb_spec (strlen last) 0); [lia|]. reflexivity.
  - pose proof (not_dotdot_end (r0 +:+ "/") last Hs) as Hguard.
    rewrite app_assoc in Hguard. rewrite Hguard.
    assert (2 < strlen (r0 +:+ "/" +:+ last)) as Hlong.
    { rewrite !strlen_app. change (strlen "/") with 1. lia. }
    destruct (Z.ltb_spec 2 (strlen (r0 +:+ "/" +:+ last))); [|lia].
    rewrite (lastIndexOf_joined r0 last Hns).
    destruct (Z.eqb_spec (strlen r0) (-1)); [lia|].
    simpl. apply slice_prefix.
Qed.

Lemma dotdot_tail path allow i code st :
  dots st = 0 ->
  norm_loop path allow ".." i code st
  = res (at_separator path allow (i + 2) (with_dots st 2)).
Proof.
  intros Hd.
  pose proof (scan_segment path allow ".." eq_refl "" i code st) as Hscan.
  rewrite Hd in Hscan. exact Hscan.
Qed.

(** [normalizeString] on "/s1/.../sn/last/..": the result is
    "s1/.../sn", built by [extend]. *)
Lemma normalizeString_pop init last :
  Forall (fun s => is_segment s = true) init ->
  is_segment last = true ->
  normalizeString ("/" +:+ chain init (last +:+ "/" +:+ "..")) false
  = fold_left extend init "".
Proof.
  intros Hinit Hlast.
  unfold normalizeString.
  set (tail := last +:+ "/" +:+ "..").
  set (st0 := {| res := ""; lastSegmentLength := 0;
                 lastSlash := strlen "/" - 1; dots := 0 |}).
  change (norm_loop ("/" +:+ chain init tail) false
            ("/" +:+ chain init tail) 0 zero norm_init)
    with (norm_loop ("/" +:+ chain init tail) false (chain init tail)
            (strlen "/") CHAR_FORWARD_SLASH st0).
  destruct (chain_all false tail init Hinit "/" CHAR_FORWARD_SLASH st0)
    as (pre & code & st & Hpath & Hloop & Hls & Hd & Hres);
    [reflexivity|reflexivity|].
  rewrite Hloop. unfold tail.
  rewrite (chain_step false pre last ".." code st Hlast Hls Hd).
  rewrite dotdot_tail by reflexivity.
  unfold with_dots; cbn [res lastSegmentLength lastSlash dots].
  rewrite pop_segment; [exact Hres|exact Hlast|lia].
Qed.

Lemma join_segments_cons s l :
  l <> [] -> join_segments (s :: l) = s +:+ "/" +:+ join_segments l.
Proof. by destruct l. Qed.

Lemma fold_extend_nonempty l : forall r,
  0 < strlen r ->
  fold_left extend l r
  = match l with [] => r | _ => r +:+ "/" +:+ join_segments l end.
Proof.
  induction l as [|s l IH]; intros r Hr; [reflexivity|].
  simpl fold_left. unfold extend at 2.
  destruct (Z.ltb_spec 0 (strlen r)); [|lia].
  rewrite IH.
  - destruct l as [|s' l]; [reflexivity|].
    rewrite (join_segments_cons s) by done.
    by rewrite !app_assoc.
  - rewrite !strlen_app. change (strlen "/") with 1.
    pose proof (strlen_nonneg s). lia.
Qed.

(** Appending names one by one builds the "/"-separated list. *)
Lemma fold_extend_join l :
  Forall (fun s => is_segment s = true) l ->
  fold_left extend l "" = join_segments l.
Proof.
  destruct 1 as [|s l Hs Hl]; [reflexivity|].
  simpl fold_left. change (extend "" s) with s.
  rewrite (fold_extend_nonempty l s (segment_strlen s Hs)).
  by destruct l.
Qed.

Lemma join_segments_chain init last tail :
  join_segments (init ++ [last]) +:+ tail = chain init (last +:+ tail).
Proof.
  induction init as [|s init IH]; [reflexivity|].
  change ((s :: init) ++ [last]) with (s :: (init ++ [last])).
  rewrite join_segments_cons by by destruct init.
  rewrite !app_assoc, IH. reflexivity.
Qed.

(** [normalize] on an absolute path that ends in "/..": the leading
    separator is put back, no trailing one is added. *)
Lemma normalize_abs_dotdot body :
  normalize ("/" +:+ body +:+ "/..")
  = "/" +:+ normalizeString ("/" +:+ body +:+ "/..") false.
Proof.
  unfold normalize.
  set (path := "/" +:+ body +:+ "/..").
  assert ((strlen path =? 0) = false) as ->.
  { apply Z.eqb_neq. unfold path. rewrite !strlen_app.
    change (strlen "/") with 1. pose proof (strlen_nonneg body).
    pose proof (strlen_nonneg "/.."). lia. }
  assert (charIs path 0 CHAR_FORWARD_SLASH = true) as -> by reflexivity.
  assert (charIs path (strlen path - 1) CHAR_FORWARD_SLASH = false) as ->.
  { assert (path = ("/" +:+ body +:+ "/.") +:+ ".") as Hp
      by (unfold path; by rewrite !app_assoc).
    rewrite Hp, strlen_app. change (strlen ".") with 1.
    replace (strlen ("/" +:+ body +:+ "/.") + 1 - 1)
      with (strlen ("/" +:+ body +:+ "/.") + 0) by lia.
    by rewrite charIs_app_r. }
  simpl negb.
  destruct (Z.eqb_spec (strlen (normalizeString path false)) 0) as [H0|_];
    [|reflexivity].
  by rewrite (strlen_zero _ H0).
Qed.

Lemma Forall_segment_removelast segs :
  Forall (fun s => is_segment s = true) segs ->
  Forall (fun s => is_segment s = true) (removelast segs).
Proof.
  induction 1 as [|s l Hs Hl IH]; [constructor|].
  destruct l; [constructor|]. constructor; [exact Hs|exact IH].
Qed.

(** Joining ".." to an absolute, normalized path gives the path of the
    directory one level up; the root directory is its own parent. *)
Lemma join_dotdot segs :
  Forall (fun s => is_segment s = true) segs ->
  Path.join [absolute segs; ".."] = absolute (removelast segs).
Proof.
  intros Hsegs.
  destruct segs as [|s0 segs0] using rev_ind; [reflexivity|]. clear IHsegs0.
  apply Forall_app in Hsegs as [Hinit Hlast].
  apply Forall_inv in Hlast.
  rewrite removelast_last.
  unfold Path.join, join_args, absolute.
  assert ((0 <? strlen ("/" +:+ join_segments (segs0 ++ [s0]))) = true)
    as ->.
  { apply Z.ltb_lt. rewrite strlen_app. change (strlen "/") with 1.
    pose proof (strlen_nonneg (join_segments (segs0 ++ [s0]))). lia. }
  change (0 <? strlen "..") with true. cbv iota.
  rewrite app_assoc.
  change ("/" +:+ "..") with "/..".
  rewrite normalize_abs_dotdot.
  change "/.." with ("/" +:+ "..").
  rewrite join_segments_chain, normalizeString_pop by done.
  by rewrite fold_extend_join.
Qed.

End PathFacts.

(* ===================================================================== *)
(** * The script                                                          *)
(* ===================================================================== *)

Module RunTestsFacts.
Import Node RunTests.

Lemma props_insert_eq (h : gmap loc Obj) l o : props (<[l := o]> h) l = o.
Proof. unfold props. by rewrite lookup_insert_eq. Qed.

Lemma no_status_iff out :
  status (returns_of out) = None
  <-> (exists errno, out = ChildNotLaunched errno)
      \/ (exists sig, out = ChildKilled sig).
Proof.
  destruct out; simpl; split; try done; eauto.
  - intros [[? ?]|[? ?]]; discriminate.
Qed.

Section Run.
Context `{PathModule}.
Variable os : OS.

(** The whole effect of the script on an arbitrary process. *)
Lemma run_unfold p :
  let l := fresh (dom (heap p)) in
  let child_env :=
    <["PYTHONPATH" := parent (__dirname p)]> (ambient p) in
  let rq :=
    {| file := "python";
       args := ["-m"; "unittest"; "discover"; "-s"; "tests"; "-p";
                "test_*.py"; "-v"];
       workdir := root (__dirname p);
       envPairs := child_env;
       streams := inherit |} in
  run os p
  = {| exit_status :=
         match status (returns_of (os rq)) with
         | Some s => s
         | None => 1
         end;
       final :=
         {| heap := <[l := child_env]> (heap p);
            process_env := process_env p;
            process_argv := process_argv p;
            __dirname := __dirname p;
            spawned := spawned p ++ [(rq, os rq)] |} |}.
Proof.
  intros l child_env rq.
  unfold run, run_script, main, mbind, JS_bind, bind, get_dirname,
    get_process_env, object_spread_set, spawnSync, process_exit.
  cbn [cwd env stdio heap process_env process_argv __dirname spawned].
  by rewrite props_insert_eq.
Qed.

Lemma ambient_boot dir argv environ :
  ambient (boot dir argv environ) = environ.
Proof. unfold ambient, boot, props; simpl. by rewrite lookup_singleton_eq. Qed.

(** The script started in a fresh process. *)
Lemma run_boot dir argv environ :
  let rq :=
    {| file := "python";
       args := ["-m"; "unittest"; "discover"; "-s"; "tests"; "-p";
                "test_*.py"; "-v"];
       workdir := root dir;
       envPairs := <["PYTHONPATH" := parent dir]> environ;
       streams := inherit |} in
  spawned (final (run os (boot dir argv environ))) = [(rq, os rq)]
  /\ exit_status (run os (boot dir argv environ))
     = match status (returns_of (os rq)) with Some s => s | None => 1 end.
Proof.
  rewrite run_unfold. cbn [final spawned exit_status].
  rewrite ambient_boot. by split.
Qed.

(** C1: when the spawned child terminates with exit status [N], the
    script exits with exactly [N] (so 0 for 0, and [N] for a non-zero
    [N]). *)
Theorem exit_status_is_child_status dir argv environ rq N :
  (rq, ChildExited N) ∈ spawned (final (run os (boot dir argv environ))) ->
  exit_status (run os (boot dir argv environ)) = N.
Proof.
  destruct (run_boot dir argv environ) as [-> ->].
  intros Hin%list_elem_of_singleton.
  injection Hin as _ <-. reflexivity.
Qed.

(** C2: when the child yields no exit status (it could not be
    launched, or it was ended by a signal), the script exits with
    exactly 1. *)
Theorem exit_status_1_without_child_status dir argv environ rq out :
  (rq, out) ∈ spawned (final (run os (boot dir argv environ))) ->
  status (returns_of out) = None ->
  exit_status (run os (boot dir argv environ)) = 1.
Proof.
  destruct (run_boot dir argv environ) as [-> ->].
  intros Hin%list_elem_of_singleton Hnone.
  injection Hin as _ <-. by rewrite Hnone.
Qed.

(** C5: a run spawns exactly one child: [python] with the fixed
    argument list, working directory [root], the built environment,
    and inherited standard streams. *)
Theorem spawns_exactly_one_unittest_discover dir argv environ :
  exists out,
    spawned (final (run os (boot dir argv environ)))
    = [({| file := "python";
           args := ["-m"; "unittest"; "discover"; "-s"; "tests"; "-p";
                    "test_*.py"; "-v"];
           workdir := root dir;
           envPairs := <["PYTHONPATH" := parent dir]> environ;
           streams := inherit |}, out)].
Proof.
  destruct (run_boot dir argv environ) as [-> _]. by eexists.
Qed.

(** C6: exit status 0 only comes from a child that was launched and
    exited with 0; in particular never from a failed launch. *)
Theorem exit_0_only_if_child_exited_0 dir argv environ :
  exit_status (run os (boot dir argv environ)) = 0 ->
  exists rq,
    spawned (final (run os (boot dir argv environ)))
    = [(rq, ChildExited 0)].
Proof.
  destruct (run_boot dir argv environ) as [-> ->].
  intros Hexit. eexists. do 2 f_equal.
  destruct (os _) as [n| |]; simpl in Hexit; [by subst|done|done].
Qed.

(** C7: the run leaves [process.env] alone: it is still the same
    object with the same properties, as is every object that existed
    before; the child's environment is built in a new object. *)
Theorem process_env_not_mutated p environ :
  heap p !! process_env p = Some environ ->
  process_env (final (run os p)) = process_env p
  /\ ambient (final (run os p)) = environ
  /\ forall l o,
       heap p !! l = Some o -> heap (final (run os p)) !! l = Some o.
Proof.
  intros Henv. rewrite run_unfold.
  cbn [final process_env heap].
  assert (forall l o, heap p !! l = Some o ->
            <[fresh (dom (heap p)) :=
                <["PYTHONPATH" := parent (__dirname p)]> (ambient p)]>
              (heap p) !! l = Some o) as Hframe.
  { intros l o Hl. rewrite lookup_insert_ne; [done|].
    intros <-. apply (is_fresh (dom (heap p))).
    apply elem_of_dom. by exists o. }
  split; [reflexivity|]. split; [|exact Hframe].
  unfold ambient at 1, props at 1. cbn [heap process_env].
  by rewrite (Hframe _ _ Henv).
Qed.

(** C8: every variable other than [PYTHONPATH] reaches the child
    exactly as it is in the ambient environment (present with the
    same value, or absent). *)
Theorem child_env_passes_ambient_through dir argv environ key :
  key <> "PYTHONPATH" ->
  exists rq out,
    spawned (final (run os (boot dir argv environ))) = [(rq, out)]
    /\ envPairs rq !! key = environ !! key.
Proof.
  intros Hkey.
  destruct (run_boot dir argv environ) as [-> _].
  eexists _, _. split; [reflexivity|].
  cbn [envPairs]. by apply lookup_insert_ne.
Qed.

(** C9: two runs that differ only in the script's command-line
    arguments spawn the same command with the same environment and
    end with the same exit status. *)
Theorem independent_of_argv dir environ argv1 argv2 :
  spawned (final (run os (boot dir argv1 environ)))
  = spawned (final (run os (boot dir argv2 environ)))
  /\ exit_status (run os (boot dir argv1 environ))
     = exit_status (run os (boot dir argv2 environ)).
Proof.
  destruct (run_boot dir argv1 environ) as [-> ->].
  by destruct (run_boot dir argv2 environ) as [-> ->].
Qed.

(** C10: the executable is spawned under the name "python" (not
    "python3"), and the variable put into the child's environment is
    named "PYTHONPATH". *)
Theorem external_names_fixed dir argv environ :
  exists rq out,
    spawned (final (run os (boot dir argv environ))) = [(rq, out)]
    /\ file rq = "python"
    /\ file rq <> "python3"
    /\ envPairs rq = <["PYTHONPATH" := parent dir]> environ.
Proof.
  destruct (run_boot dir argv environ) as [-> _].
  eexists _, _. by repeat split.
Qed.

End Run.

Import AbsPath Examples.

Lemma exit_status_is_child_status_witness :
  (sample_request, ChildExited 3)
    ∈ spawned (final (run (os_exits 3)
                        (boot sample_dir sample_argv sample_environ)))
  /\ exit_status (run (os_exits 3)
                    (boot sample_dir sample_argv sample_environ)) = 3.
Proof.
  assert ((sample_request, ChildExited 3)
            ∈ spawned (final (run (os_exits 3)
                                (boot sample_dir sample_argv
                                   sample_environ)))) as Hin
    by (vm_compute; constructor).
  split; [exact Hin|].
  exact (exit_status_is_child_status (os_exits 3) sample_dir sample_argv
           sample_environ sample_request 3 Hin).
Defined.

Lemma exit_status_1_without_child_status_witness :
  (sample_request, ChildNotLaunched "ENOENT")
    ∈ spawned (final (run os_no_python
                        (boot sample_dir sample_argv sample_environ)))
  /\ status (returns_of (ChildNotLaunched "ENOENT")) = None
  /\ exit_status (run os_no_python
                    (boot sample_dir sample_argv sample_environ)) = 1.
Proof.
  assert ((sample_request, ChildNotLaunched "ENOENT")
            ∈ spawned (final (run os_no_python
                                (boot sample_dir sample_argv
                                   sample_environ)))) as Hin
    by (vm_compute; constructor).
  split; [exact Hin|]. split; [reflexivity|].
  exact (exit_status_1_without_child_status os_no_python sample_dir
           sample_argv sample_environ sample_request
           (ChildNotLaunched "ENOENT") Hin eq_refl).
Defined.

Lemma exit_0_only_if_child_exited_0_witness :
  exit_status (run (os_exits 0)
                 (boot sample_dir sample_argv sample_environ)) = 0
  /\ exists rq,
       spawned (final (run (os_exits 0)
                         (boot sample_dir sample_argv sample_environ)))
       = [(rq, ChildExited 0)].
Proof.
  split; [reflexivity|].
  apply (exit_0_only_if_child_exited_0 (os_exits 0) sample_dir sample_argv
           sample_environ).
  reflexivity.
Defined.

Lemma process_env_not_mutated_witness :
  heap sample_process !! process_env sample_process = Some sample_environ
  /\ process_env (final (run (os_exits 1) sample_process))
     = process_env sample_process
  /\ ambient (final (run (os_exits 1) sample_process)) = sample_environ
  /\ forall l o,
       heap sample_process !! l = Some o ->
       heap (final (run (os_exits 1) sample_process)) !! l = Some o.
Proof.
  assert (heap sample_process !! process_env sample_process
          = Some sample_environ) as Henv
    by (vm_compute; reflexivity).
  split; [exact Henv|].
  exact (process_env_not_mutated (os_exits 1) sample_process
           sample_environ Henv).
Defined.

Lemma child_env_passes_ambient_through_witness :
  "PATH" <> "PYTHONPATH"
  /\ exists rq out,
       spawned (final (run (os_exits 0)
                         (boot sample_dir sample_argv sample_environ)))
       = [(rq, out)]
       /\ envPairs rq !! "PATH" = sample_environ !! "PATH".
Proof.
  assert ("PATH" <> "PYTHONPATH") as Hkey by discriminate.
  split; [exact Hkey|].
  exact (child_env_passes_ambient_through (os_exits 0) sample_dir
           sample_argv sample_environ "PATH" Hkey).
Defined.

(** The scenarios of the specification on the sample process: a child
    that exits with 1 or 0, and an environment without [PYTHONPATH]. *)
Example scenario_exit_statuses :
  exit_status (run (os_exits 1) sample_process) = 1
  /\ exit_status (run (os_exits 0) sample_process) = 0
  /\ exit_status (run os_no_python sample_process) = 1.
Proof. repeat split; reflexivity. Qed.

Example scenario_PYTHONPATH_unset :
  spawned (final (run (os_exits 0)
                    (boot sample_dir sample_argv {[ "PATH" := "/usr/bin" ]})))
  = [(sample_request, ChildExited 0)].
Proof. vm_compute. reflexivity. Qed.

(** With [process.env] aliased instead of copied, the run would leave
    [PYTHONPATH] changed in the process's own environment. *)
Example aliasing_would_mutate :
  ambient (final (run_script (aliasing_variant (os_exits 0)) sample_process))
    !! "PYTHONPATH" = Some "/home/u"
  /\ ambient sample_process !! "PYTHONPATH" = Some "/opt/lib".
Proof. split; vm_compute; reflexivity. Qed.

(** C4: for a script directory given by its segments, [root] is the
    directory one level above the one that holds the script, and [parent]
    is the parent of [root], two levels above the script's directory. *)
Theorem root_and_parent_levels segs :
  forallb is_segment segs = true ->
  root (absolute segs) = absolute (levels_up 1 segs)
  /\ parent (absolute segs) = absolute (levels_up 2 segs).
Proof.
  intros Hsegs.
  assert (Forall (fun s => is_segment s = true) segs) as HF.
  { induction segs as [|s segs IH]; [constructor|].
    simpl in Hsegs. apply andb_true_iff in Hsegs as [Hs Hsegs].
    constructor; [exact Hs|exact (IH Hsegs)]. }
  unfold parent, root, path_join, posix; simpl levels_up.
  rewrite (PathFacts.join_dotdot segs HF).
  split; [reflexivity|].
  apply PathFacts.join_dotdot, PathFacts.Forall_segment_removelast, HF.
Qed.

Lemma root_and_parent_levels_witness :
  forallb is_segment sample_segments = true
  /\ root (absolute sample_segments) = absolute (levels_up 1 sample_segments)
  /\ parent (absolute sample_segments)
     = absolute (levels_up 2 sample_segments).
Proof.
  split; [reflexivity|].
  apply (root_and_parent_levels sample_segments). reflexivity.
Defined.

(** C4 with [root] read as the directory that holds the script, and
    [parent] as one level above that directory, does not hold. *)
Lemma root_is_not_script_directory :
  ~ (root (absolute sample_segments) = absolute sample_segments
     /\ parent (absolute sample_segments)
        = absolute (levels_up 1 sample_segments)).
Proof. intros [Hroot _]. vm_compute in Hroot. discriminate. Qed.

(** The two values at that input, for the record. *)
Example root_parent_sample :
  root "/home/u/clawd_migrate/scripts" = "/home/u/clawd_migrate"
  /\ parent "/home/u/clawd_migrate/scripts" = "/home/u".
Proof. split; reflexivity. Qed.

End RunTestsFacts.

(* ===================================================================== *)
(** * More about [path.posix.join] on absolute paths                      *)
(* ===================================================================== *)

Module PathMore.
Import JSString Path AbsPath PathAux JSStringFacts PathFacts.
#[local] Arguments String.append !_ _ / : simpl nomatch.

Lemma forallb_segments segs :
  forallb is_segment segs = true ->
  Forall (fun s => is_segment s = true) segs.
Proof.
  induction segs as [|s segs IH]; intros Hsegs; [constructor|].
  simpl in Hsegs. apply andb_true_iff in Hsegs as [Hs Hsegs].
  constructor; [exact Hs|exact (IH Hsegs)].
Qed.

Lemma last_code_not_separator s : forall code,
  no_separator s = true -> s <> "" ->
  isPosixPathSeparator (last_code code s) = false.
Proof.
  induction s as [|c s IH]; intros code Hs Hne; [done|].
  simpl in Hs. apply andb_true_iff in Hs as [Hc Hs].
  apply negb_true_iff in Hc.
  destruct s as [|c' s']; [exact Hc|].
  change (last_code code (String c (String c' s')))
    with (last_code c (String c' s')).
  by apply IH.
Qed.

Lemma get_no_separator s : forall n,
  no_separator s = true ->
  match String.get n s with
  | Some a => Ascii.eqb a CHAR_FORWARD_SLASH
  | None => false
  end = false.
Proof.
  induction s as [|c s IH]; intros n Hs; [by destruct n|].
  simpl in Hs. apply andb_true_iff in Hs as [Hc Hs].
  apply negb_true_iff in Hc.
  destruct n as [|n]; simpl; [exact Hc|by apply IH].
Qed.

Lemma charIs_no_separator s i :
  no_separator s = true -> charIs s i CHAR_FORWARD_SLASH = false.
Proof.
  intros Hs. unfold charIs. destruct (i <? 0); [reflexivity|].
  by apply get_no_separator.
Qed.

(** The last directory name of a path, which no separator follows: the
    virtual separator after the last code unit appends it. *)
Lemma final_segment allow pre s code st :
  is_segment s = true ->
  lastSlash st = strlen pre - 1 ->
  dots st = 0 ->
  norm_loop (pre +:+ s) allow s (strlen pre) code st = extend (res st) s.
Proof.
  intros Hs Hls Hd.
  destruct (is_segment_inv s Hs) as (Hns & Hne & _).
  assert (norm_loop (pre +:+ s +:+ "") allow (s +:+ "") (strlen pre) code st
          = extend (res st) s) as Hloop.
  { rewrite (scan_segment _ _ s Hns), Hd.
    cbn [norm_loop].
    rewrite (last_code_not_separator s code Hns Hne).
    by rewrite (separator_after_segment allow pre s "" st Hs Hls). }
  by rewrite !app_empty_r in Hloop.
Qed.

Lemma chain_snoc init last tail :
  chain (init ++ [last]) tail = chain init (last +:+ "/" +:+ tail).
Proof.
  induction init as [|s init IH]; [reflexivity|].
  change (chain ((s :: init) ++ [last]) tail)
    with (s +:+ "/" +:+ chain (init ++ [last]) tail).
  by rewrite IH.
Qed.

Lemma join_segments_snoc init last :
  join_segments (init ++ [last]) = chain init last.
Proof.
  pose proof (join_segments_chain init last "") as Hc.
  by rewrite !app_empty_r in Hc.
Qed.

(** [normalizeString] keeps the directory names of a path that has
    nothing to clean up; [pre] is "/" or "//". *)
Lemma normalizeString_clean_from pre st init last :
  Forall (fun s => is_segment s = true) init ->
  is_segment last = true ->
  lastSlash st = strlen pre - 1 ->
  dots st = 0 ->
  res st = "" ->
  norm_loop (pre +:+ chain init last) false (chain init last) (strlen pre)
    CHAR_FORWARD_SLASH st
  = join_segments (init ++ [last]).
Proof.
  intros Hinit Hlast Hls Hd Hres.
  destruct (chain_all false last init Hinit pre CHAR_FORWARD_SLASH st Hls Hd)
    as (pre' & code' & st' & Hpath & Hloop & Hls' & Hd' & Hres').
  rewrite Hloop, (final_segment false pre' last code' st' Hlast Hls' Hd').
  rewrite Hres', Hres.
  rewrite <- fold_extend_join.
  - by rewrite fold_left_app.
  - apply Forall_app. split; [exact Hinit|]. by constructor.
Qed.

Lemma join_segments_strlen segs :
  Forall (fun s => is_segment s = true) segs -> segs <> [] ->
  0 < strlen (join_segments segs).
Proof.
  intros Hsegs Hne.
  destruct Hsegs as [|s l Hs Hl]; [done|].
  pose proof (segment_strlen s Hs).
  destruct l; [done|].
  rewrite join_segments_cons by done. rewrite strlen_app.
  pose proof (strlen_nonneg ("/" +:+ join_segments (s0 :: l))). lia.
Qed.

(** [normalize] on a non-empty path that starts with a separator and
    ends in a directory name. *)
Lemma normalize_absolute_shape body last :
  is_segment last = true ->
  normalize ("/" +:+ body +:+ last)
  = if strlen (normalizeString ("/" +:+ body +:+ last) false) =? 0
    then "/"
    else "/" +:+ normalizeString ("/" +:+ body +:+ last) false.
Proof.
  intros Hlast.
  destruct (is_segment_inv last Hlast) as (Hns & _).
  pose proof (segment_strlen last Hlast) as Hlen.
  unfold normalize.
  set (path := "/" +:+ body +:+ last).
  assert ((strlen path =? 0) = false) as ->.
  { apply Z.eqb_neq. unfold path. rewrite !strlen_app.
    change (strlen "/") with 1. pose proof (strlen_nonneg body). lia. }
  assert (charIs path 0 CHAR_FORWARD_SLASH = true) as -> by reflexivity.
  assert (charIs path (strlen path - 1) CHAR_FORWARD_SLASH = false) as ->.
  { assert (path = ("/" +:+ body) +:+ last) as Hp
      by (unfold path; by rewrite !app_assoc).
    rewrite Hp, strlen_app.
    replace (strlen ("/" +:+ body) + strlen last - 1)
      with (strlen ("/" +:+ body) + (strlen last - 1)) by lia.
    rewrite charIs_app_r by lia. by apply charIs_no_separator. }
  reflexivity.
Qed.

(** An absolute path built from directory names is in normal form. *)
Lemma normalize_absolute segs :
  Forall (fun s => is_segment s = true) segs ->
  normalize (absolute segs) = absolute segs.
Proof.
  intros Hsegs.
  destruct segs as [|last init] using rev_ind; [reflexivity|]. clear IHinit.
  pose proof (join_segments_strlen _ Hsegs) as Hlen.
  apply Forall_app in Hsegs as [Hinit Hlast]. apply Forall_inv in Hlast.
  unfold absolute. rewrite join_segments_snoc.
  assert (normalizeString ("/" +:+ chain init last) false
          = join_segments (init ++ [last])) as Hnorm.
  { apply (normalizeString_clean_from "/"
             {| res := ""; lastSegmentLength := 0;
                lastSlash := strlen "/" - 1; dots := 0 |});
      done. }
  destruct (chain_all false last init Hinit "/" CHAR_FORWARD_SLASH
              {| res := ""; lastSegmentLength := 0;
                 lastSlash := strlen "/" - 1; dots := 0 |})
    as (pre' & _ & _ & Hpath & _); [reflexivity|reflexivity|].
  assert (exists body, "/" +:+ chain init last = "/" +:+ body +:+ last)
    as [body Hbody].
  { destruct pre' as [|c pre'']; simpl in Hpath.
    - destruct (is_segment_inv last Hlast) as (Hns & _).
      rewrite <- Hpath in Hns. discriminate Hns.
    - injection Hpath as <- Hrest. exists pre''. by rewrite Hrest. }
  rewrite Hbody, (normalize_absolute_shape body last Hlast).
  rewrite <- Hbody, Hnorm, <- join_segments_snoc.
  destruct (Z.eqb_spec (strlen (join_segments (init ++ [last]))) 0);
    [|reflexivity].
  assert (init ++ [last] <> []) as Hne by by destruct init.
  specialize (Hlen Hne). lia.
Qed.

Lemma join_segments_app_last segs s :
  segs <> [] ->
  join_segments (segs ++ [s]) = join_segments segs +:+ "/" +:+ s.
Proof.
  induction segs as [|a segs IH]; intros Hne; [done|].
  destruct segs as [|b segs]; [reflexivity|].
  change ((a :: b :: segs) ++ [s]) with (a :: ((b :: segs) ++ [s])).
  rewrite join_segments_cons by done.
  rewrite IH by done.
  rewrite (join_segments_cons a (b :: segs)) by done.
  by rewrite !app_assoc.
Qed.

(** Joining a directory name to an absolute path appends it. *)
Lemma join_segment segs s :
  Forall (fun x => is_segment x = true) segs ->
  is_segment s = true ->
  Path.join [absolute segs; s] = absolute (segs ++ [s]).
Proof.
  intros Hsegs Hs.
  pose proof (segment_strlen s Hs) as Hlen.
  unfold Path.join, join_args.
  assert ((0 <? strlen (absolute segs)) = true) as ->.
  { apply Z.ltb_lt. unfold absolute. rewrite strlen_app.
    change (strlen "/") with 1.
    pose proof (strlen_nonneg (join_segments segs)). lia. }
  assert ((0 <? strlen s) = true) as -> by by apply Z.ltb_lt.
  destruct segs as [|a segs].
  - change (absolute [] +:+ "/" +:+ s) with ("/" +:+ "/" +:+ s).
    rewrite (normalize_absolute_shape "/" s Hs).
    assert (normalizeString ("/" +:+ "/" +:+ s) false = s) as ->.
    { unfold normalizeString.
      change (norm_loop ("/" +:+ "/" +:+ s) false ("/" +:+ "/" +:+ s) 0
                zero norm_init)
        with (norm_loop ("//" +:+ s) false s (strlen "//")
                CHAR_FORWARD_SLASH
                {| res := ""; lastSegmentLength := 0;
                   lastSlash := strlen "//" - 1; dots := 0 |}).
      by rewrite final_segment. }
    destruct (Z.eqb_spec (strlen s) 0); [lia|reflexivity].
  - assert (absolute (a :: segs) +:+ "/" +:+ s
            = absolute ((a :: segs) ++ [s])) as ->.
    { unfold absolute. rewrite join_segments_app_last by done.
      by rewrite !app_assoc. }
    apply normalize_absolute, Forall_app. split; [exact Hsegs|].
    by constructor.
Qed.

End PathMore.

(* ===================================================================== *)
(** * More about the script                                               *)
(* ===================================================================== *)

Module RunTestsMore.
Import Node RunTests AbsPath Examples RunTestsFacts.

Section Run.
Context `{PathModule}.
Variable os : OS.

(** X1: the exit status tells exactly this about the child: status [N]
    means the child exited with [N], or [N] is 1 and the child gave no
    status.  So 1 is the only status with two meanings. *)
Theorem exit_status_characterised dir argv environ N :
  exit_status (run os (boot dir argv environ)) = N
  <-> exists rq out,
        spawned (final (run os (boot dir argv environ))) = [(rq, out)]
        /\ (out = ChildExited N
            \/ (N = 1 /\ status (returns_of out) = None)).
Proof.
  destruct (run_boot os dir argv environ) as [-> ->].
  split.
  - intros HN. eexists _, _. split; [reflexivity|].
    destruct (os _) as [n| |]; simpl in HN; subst; auto.
  - intros (rq & out & Heq & Hout).
    injection Heq as <- <-.
    destruct Hout as [->|[-> ->]]; reflexivity.
Qed.

(** X2: a [PYTHONPATH] inherited from the ambient environment has no
    influence at all: with any value for it, the child is spawned and the
    script exits exactly as if it had not been set. *)
Theorem inherited_PYTHONPATH_ignored dir argv environ v :
  spawned (final (run os (boot dir argv (<["PYTHONPATH" := v]> environ))))
  = spawned (final (run os (boot dir argv (delete "PYTHONPATH" environ))))
  /\ exit_status (run os (boot dir argv (<["PYTHONPATH" := v]> environ)))
     = exit_status (run os (boot dir argv (delete "PYTHONPATH" environ))).
Proof.
  destruct (run_boot os dir argv (<["PYTHONPATH" := v]> environ))
    as [-> ->].
  destruct (run_boot os dir argv (delete "PYTHONPATH" environ)) as [-> ->].
  by rewrite insert_insert_eq, insert_delete_eq.
Qed.

End Run.

(** C3: for every ambient environment, whether it already sets
    [PYTHONPATH] or not, the environment given to the one child has
    [PYTHONPATH] equal to the parent of the root directory: with the
    script's directory given by its segments, the root directory is the
    directory one level above it, and [PYTHONPATH] is exactly the
    directory one level above the root directory. *)
Theorem child_env_PYTHONPATH_is_parent_of_root
    (os : OS) segs argv environ :
  forallb is_segment segs = true ->
  exists rq out,
    spawned (final (run os (boot (absolute segs) argv environ)))
    = [(rq, out)]
    /\ root (absolute segs) = absolute (levels_up 1 segs)
    /\ envPairs rq !! "PYTHONPATH"
       = Some (absolute (levels_up 1 (levels_up 1 segs))).
Proof.
  intros Hall%PathMore.forallb_segments.
  pose proof (PathFacts.Forall_segment_removelast _ Hall) as Hup.
  assert (root (absolute segs) = absolute (removelast segs)) as Hroot.
  { unfold root, path_join, posix. exact (PathFacts.join_dotdot _ Hall). }
  assert (parent (absolute segs) = absolute (removelast (removelast segs)))
    as Hparent.
  { unfold parent. rewrite Hroot. unfold path_join, posix.
    exact (PathFacts.join_dotdot _ Hup). }
  destruct (run_boot os (absolute segs) argv environ) as [-> _].
  eexists _, _. split; [reflexivity|]. split; [exact Hroot|].
  cbn [envPairs levels_up]. by rewrite lookup_insert_eq, Hparent.
Qed.

Lemma child_env_PYTHONPATH_is_parent_of_root_witness :
  forallb is_segment sample_segments = true
  /\ exists rq out,
       spawned (final (run (os_exits 0)
                         (boot (absolute sample_segments) sample_argv
                            sample_environ)))
       = [(rq, out)]
       /\ root (absolute sample_segments)
          = absolute (levels_up 1 sample_segments)
       /\ envPairs rq !! "PYTHONPATH"
          = Some (absolute (levels_up 1 (levels_up 1 sample_segments))).
Proof.
  split; [reflexivity|].
  apply (child_env_PYTHONPATH_is_parent_of_root (os_exits 0) sample_segments
           sample_argv sample_environ).
  reflexivity.
Defined.

(** The values at the sample input, where the ambient environment sets
    [PYTHONPATH] to "/opt/lib". *)
Example PYTHONPATH_sample :
  sample_environ !! "PYTHONPATH" = Some "/opt/lib"
  /\ spawned (final (run (os_exits 0) sample_process))
     = [(sample_request, ChildExited 0)]
  /\ envPairs sample_request !! "PYTHONPATH" = Some "/home/u"
  /\ workdir sample_request = "/home/u/clawd_migrate".
Proof. repeat split; vm_compute; reflexivity. Qed.

(** X4: with the script in [<dir>/<pkg>/<scripts>], the child runs in
    [<dir>/<pkg>] with [PYTHONPATH] equal to [<dir>], and joining the
    package's directory name to [PYTHONPATH] gives the working directory
    back. *)
Theorem package_directory_below_PYTHONPATH
    (os : OS) segs pkg scripts argv environ :
  forallb is_segment (segs ++ [pkg; scripts]) = true ->
  exists rq out,
    spawned (final (run os (boot (absolute (segs ++ [pkg; scripts]))
                              argv environ)))
    = [(rq, out)]
    /\ workdir rq = absolute (segs ++ [pkg])
    /\ envPairs rq !! "PYTHONPATH" = Some (absolute segs)
    /\ Path.join [absolute segs; pkg] = workdir rq.
Proof.
  intros Hall%PathMore.forallb_segments.
  assert (Forall (fun s => is_segment s = true) (segs ++ [pkg])) as Hpkg.
  { replace (segs ++ [pkg; scripts]) with ((segs ++ [pkg]) ++ [scripts])
      in Hall by by rewrite <- app_assoc.
    by apply Forall_app in Hall as [? _]. }
  pose proof Hpkg as Hsegs. apply Forall_app in Hsegs as [Hsegs Hp].
  apply Forall_inv in Hp.
  assert (root (absolute (segs ++ [pkg; scripts])) = absolute (segs ++ [pkg]))
    as Hroot.
  { unfold root, path_join, posix.
    rewrite (PathFacts.join_dotdot _ Hall).
    replace (segs ++ [pkg; scripts]) with ((segs ++ [pkg]) ++ [scripts])
      by by rewrite <- app_assoc.
    by rewrite removelast_last. }
  assert (parent (absolute (segs ++ [pkg; scripts])) = absolute segs)
    as Hparent.
  { unfold parent. rewrite Hroot. unfold path_join, posix.
    rewrite (PathFacts.join_dotdot _ Hpkg). by rewrite removelast_last. }
  destruct (run_boot os (absolute (segs ++ [pkg; scripts])) argv environ)
    as [-> _].
  eexists _, _. split; [reflexivity|]. cbn [workdir envPairs].
  rewrite Hroot, Hparent, lookup_insert_eq.
  repeat split. by apply PathMore.join_segment.
Qed.

Lemma package_directory_below_PYTHONPATH_witness :
  forallb is_segment (["home"; "u"] ++ ["clawd_migrate"; "scripts"]) = true
  /\ exists rq out,
       spawned (final (run (os_exits 0)
                         (boot (absolute (["home"; "u"]
                                          ++ ["clawd_migrate"; "scripts"]))
                            sample_argv sample_environ)))
       = [(rq, out)]
       /\ workdir rq = absolute (["home"; "u"] ++ ["clawd_migrate"])
       /\ envPairs rq !! "PYTHONPATH" = Some (absolute ["home"; "u"])
       /\ Path.join [absolute ["home"; "u"]; "clawd_migrate"] = workdir rq.
Proof.
  split; [reflexivity|].
  apply (package_directory_below_PYTHONPATH (os_exits 0) ["home"; "u"]
           "clawd_migrate" "scripts" sample_argv sample_environ).
  reflexivity.
Defined.

(** X5: [root] and [parent] are in normal form: normalizing them again
    changes nothing. *)
Theorem root_and_parent_in_normal_form segs :
  forallb is_segment segs = true ->
  Path.normalize (root (absolute segs)) = root (absolute segs)
  /\ Path.normalize (parent (absolute segs)) = parent (absolute segs).
Proof.
  intros Hall%PathMore.forallb_segments.
  pose proof (PathFacts.Forall_segment_removelast _ Hall) as Hup.
  pose proof (PathFacts.Forall_segment_removelast _ Hup) as Hup2.
  unfold parent, root, path_join, posix.
  rewrite (PathFacts.join_dotdot _ Hall), (PathFacts.join_dotdot _ Hup).
  split; by apply PathMore.normalize_absolute.
Qed.

Lemma root_and_parent_in_normal_form_witness :
  forallb is_segment sample_segments = true
  /\ Path.normalize (root (absolute sample_segments))
     = root (absolute sample_segments)
  /\ Path.normalize (parent (absolute sample_segments))
     = parent (absolute sample_segments).
Proof.
  split; [reflexivity|].
  apply (root_and_parent_in_normal_form sample_segments). reflexivity.
Defined.

(** X6: joining the name of the script's directory to [root] gives
    [__dirname] back. *)
Theorem dirname_recovered_from_root segs scripts :
  forallb is_segment (segs ++ [scripts]) = true ->
  Path.join [root (absolute (segs ++ [scripts])); scripts]
  = absolute (segs ++ [scripts]).
Proof.
  intros Hall%PathMore.forallb_segments.
  pose proof Hall as Hsegs. apply Forall_app in Hsegs as [Hsegs Hs].
  apply Forall_inv in Hs.
  unfold root, path_join, posix.
  rewrite (PathFacts.join_dotdot _ Hall), removelast_last.
  by apply PathMore.join_segment.
Qed.

Lemma dirname_recovered_from_root_witness :
  forallb is_segment (["home"; "u"; "clawd_migrate"] ++ ["scripts"]) = true
  /\ Path.join [root (absolute (["home"; "u"; "clawd_migrate"]
                                ++ ["scripts"])); "scripts"]
     = absolute (["home"; "u"; "clawd_migrate"] ++ ["scripts"]).
Proof.
  split; [reflexivity|].
  apply (dirname_recovered_from_root ["home"; "u"; "clawd_migrate"]
           "scripts").
  reflexivity.
Defined.

End RunTestsMore.
